(** * kalman_lie: the linearized position measurement model

    A shallow embedding of [examples/Lie/LiePositionMeasurementModel.hpp]:
    the measurement function [h], the functor [LieFunctor_] that wraps it for
    the numerical differentiation engine, the constructor and
    [updateJacobians].

    Eigen's dynamically sized vectors are lists of scalars; a matrix is the
    list of its columns (Eigen stores matrices column by column).  The
    numeric scalar type [T] of the class template is a parameter of the
    development, and so is its arithmetic.  The model object is
    instantiated on [double], the binary64 numbers that the functor is
    written for ([Eigen::VectorXd]); the exact rationals [Qc] are a second
    instance, used where a statement is about arithmetic without
    rounding. *)

From Stdlib Require Import PrimFloat.
From Stdlib Require Import String Ascii DecimalString.
From Stdlib Require Import List ZArith Arith Bool Lia.
From Stdlib Require Import QArith Qcanon Qcabs.
Import ListNotations.
Close Scope Qc_scope.
Close Scope Q_scope.

Set Implicit Arguments.

(** ** Scalars, vectors and matrices *)

Class Scalar (T : Type) := { zero : T; one : T }.

#[export] Instance Qc_Scalar : Scalar Qc := {| zero := 0%Qc; one := 1%Qc |}.

(** The arithmetic of a scalar type: the four operations, negation, the
    absolute value and the comparison [a < b]. *)
Class Arith (T : Type) := {
  sadd : T -> T -> T;
  ssub : T -> T -> T;
  smul : T -> T -> T;
  sdiv : T -> T -> T;
  sopp : T -> T;
  sabs : T -> T;
  sltb : T -> T -> bool
}.

#[export] Instance Qc_Arith : Arith Qc := {|
  sadd := Qcplus;
  ssub := Qcminus;
  smul := Qcmult;
  sdiv := Qcdiv;
  sopp := Qcopp;
  sabs := Qcabs;
  sltb := fun a b => match (a ?= b)%Qc with Lt => true | _ => false end
|}.

(** [double]: the binary64 numbers, with the operations of IEEE 754 in
    round-to-nearest. *)
Definition double : Type := float.

#[export] Instance double_Scalar : Scalar double :=
  {| zero := 0%float; one := 1%float |}.

#[export] Instance double_Arith : Arith double := {|
  sadd := PrimFloat.add;
  ssub := PrimFloat.sub;
  smul := PrimFloat.mul;
  sdiv := PrimFloat.div;
  sopp := PrimFloat.opp;
  sabs := PrimFloat.abs;
  sltb := PrimFloat.ltb
|}.

Section Containers.
Context {T : Type} {ST : Scalar T}.

Definition Vector := list T.

(** The columns of the matrix, leftmost first. *)
Definition Matrix := list Vector.

Definition cols (M : Matrix) : nat := length M.

Definition rows (M : Matrix) : nat :=
  match M with
  | [] => 0
  | c :: _ => length c
  end.

(** [has_shape r c M]: [M] has [c] columns of [r] coefficients each. *)
Definition has_shape (r c : nat) (M : Matrix) : bool :=
  (length M =? c) && forallb (fun col => length col =? r) M.

(** [Eigen::setZero] on a vector and on a matrix: the size stays. *)
Definition vsetZero (u : Vector) : Vector := map (fun _ => zero) u.

Definition setZero (M : Matrix) : Matrix := map vsetZero M.

(** Column [j] of an identity matrix with [r] rows. *)
Definition basis (r j : nat) : Vector :=
  map (fun i => if i =? j then one else zero) (seq 0 r).

Definition identity (n : nat) : Matrix := map (basis n) (seq 0 n).

(** [Eigen::setIdentity]: ones on the diagonal, zeros elsewhere, the size
    stays. *)
Definition setIdentity (M : Matrix) : Matrix :=
  map (fun jc => basis (length (snd jc)) (fst jc))
      (combine (seq 0 (length M)) M).

(** [Eigen::Matrix<T, Dynamic, Dynamic> jac(r, c)] allocates [r * c]
    coefficients and writes none of them.  [heap i j] is what the storage
    holds at row [i], column [j] when the matrix is created. *)
Definition uninitialized (r c : nat) (heap : nat -> nat -> T) : Matrix :=
  map (fun j => map (fun i => heap i j) (seq 0 r)) (seq 0 c).

End Containers.

Arguments Vector T : clear implicits.
Arguments Matrix T : clear implicits.

(** ** Types of [kalman_lie/LieTypes.hpp] *)

(** Modelled from the spec: [State<T>] of [kalman_lie/LieTypes.hpp], which is
    not among the sources.  A pair of the manifold coordinates [x] and the
    tangent velocity [v], the two members that the model reads and
    writes. *)
Record State (T : Type) := mkState { x : Vector T; v : Vector T }.

(** Modelled from the spec: [LieMeasurement<T>] of [kalman_lie/LieTypes.hpp],
    which is not among the sources.  The measurement is a vector. *)
Definition LieMeasurement (T : Type) := Vector T.

(** ** Outcomes of a call *)

(** Modelled from the spec: the failures that the design document lists for
    the engine of [kalman_lie/NumericalDiff.hpp], which is not among the
    sources.  A failure ends the call in which it happens. *)
Inductive Error := DimensionMismatch | ConfigurationError.

Inductive result (A : Type) :=
| Ok (a : A)
| Failed (e : Error).

Arguments Ok {A} a.
Arguments Failed {A} e.

(** The interface that [LieFunctor_] implements for the differentiation
    engine: the evaluation operator (its status code, and the value it
    leaves in [fvec]) and the declared dimensions. *)
Record Functor (T : Type) := mkFunctor {
  call : Vector T -> Z * Vector T;
  inputs : Z;
  values : Z
}.

(** ** The model object *)

(** The members of a [LiePositionMeasurementModel]: [H] and [V] of
    [Kalman::LinearizedMeasurementModel], the covariance representation of
    [CovarianceBase], and the differentiation engine [num_diff], whose
    configuration has type [E]. *)
Record Model (T E : Type) := mkModel {
  H : Matrix T;
  V : Matrix T;
  covariance : Matrix T;
  num_diff : E
}.

Definition set_H {T E} (f : Matrix T -> Matrix T) (m : Model T E) : Model T E :=
  {| H := f (H m); V := V m; covariance := covariance m; num_diff := num_diff m |}.

Definition set_V {T E} (f : Matrix T -> Matrix T) (m : Model T E) : Model T E :=
  {| H := H m; V := f (V m); covariance := covariance m; num_diff := num_diff m |}.

(** What a member function runs in: the object and the console. *)
Record Env (T E : Type) := mkEnv { this : Model T E; cout : string }.

(** A member function that may change the object, print, and fail.  The
    changes made before a failure stay. *)
Definition Method (T E A : Type) := Env T E -> Env T E * result A.

Definition ret {T E A} (a : A) : Method T E A := fun w => (w, Ok a).

Definition bind {T E A B} (c : Method T E A) (k : A -> Method T E B)
  : Method T E B :=
  fun w =>
    match c w with
    | (w', Ok a) => k a w'
    | (w', Failed e) => (w', Failed e)
    end.

Definition get_this {T E} : Method T E (Model T E) := fun w => (w, Ok (this w)).

Definition modify_this {T E} (f : Model T E -> Model T E) : Method T E unit :=
  fun w => ({| this := f (this w); cout := cout w |}, Ok tt).

Definition print {T E} (s : string) : Method T E unit :=
  fun w => ({| this := this w; cout := cout w ++ s |}, Ok tt).

Definition lift {T E A} (r : result A) : Method T E A := fun w => (w, r).

Declare Scope method_scope.
Delimit Scope method_scope with method.
Notation "a <- c ;; k" := (bind c (fun a => k))
  (at level 61, c at next level, right associativity) : method_scope.
Notation "c ;; k" := (bind c (fun _ => k))
  (at level 61, right associativity) : method_scope.

Definition string_of_nat (n : nat) : string :=
  NilZero.string_of_uint (Nat.to_uint n).

Definition endl : string := String (ascii_of_nat 10) EmptyString.

(** The number of lines that a text printed to the console ends. *)
Fixpoint lines (s : string) : nat :=
  match s with
  | EmptyString => 0
  | String c s' =>
      (if Ascii.eqb c (ascii_of_nat 10) then 1 else 0) + lines s'
  end.

(** The line that [updateJacobians] prints: the rows and columns of [H]. *)
Definition report {T E} (m : Model T E) : string :=
  (string_of_nat (rows (H m)) ++ ", " ++ string_of_nat (cols (H m)) ++ endl)%string.

(** ** The class [LiePositionMeasurementModel] *)

Section LiePositionMeasurementModel.
Context {T : Type} {ST : Scalar T}.

(** The configuration of the engine [NumericalDiffFunctor] and its member
    [df], of [kalman_lie/NumericalDiff.hpp].  [df e F xx jac] differentiates
    [F] at [xx] into the caller's matrix [jac]; it reaches the object only
    through the evaluation operator of [F]. *)
Context {E : Type}.
Variable df : E -> Functor T -> Vector T -> Matrix T -> result (Matrix T).

(** A default-constructed [State<T>], as [S xx;] declares it. *)
Variable S_default : State T.

(** [M h(const S& x) const]. *)
Definition h (m : Model T E) (s : State T) : LieMeasurement T :=
  let measurement := x s in
  measurement.

(** [LieFunctor_::operator()(x, fvec)] on the functor whose back-reference
    points to [m]: the status code and the value left in [fvec]. *)
Definition LieFunctor_operator (m : Model T E) (x0 : Vector T)
  : Z * Vector T :=
  let xx := S_default in
  let xx := {| x := x0; v := v xx |} in
  let xx := {| x := x xx; v := vsetZero (v xx) |} in
  let fvec := h m xx in
  (0%Z, fvec).

Definition LieFunctor_inputs : Z := 6.
Definition LieFunctor_values : Z := 6.

(** [LieFunctor_(Parent* m)]. *)
Definition LieFunctor (m : Model T E) : Functor T :=
  {| call := LieFunctor_operator m;
     inputs := LieFunctor_inputs;
     values := LieFunctor_values |}.

(** The constructor body, run on the object [base] that the base-class
    constructors leave. *)
Definition LiePositionMeasurementModel_ctor (base : Model T E) : Model T E :=
  set_V setIdentity base.

Local Open Scope method_scope.

(** [num_diff.df(xx, jac)]: the engine of the object runs on the functor
    that points back to the object, and hands back [jac]. *)
Definition num_diff_df (xx : Vector T) (jac : Matrix T)
  : Method T E (Matrix T) :=
  m <- get_this ;;
  lift (df (num_diff m) (LieFunctor m) xx jac).

(** [void updateJacobians(const S& x)].  [heap] is the content of the
    storage that [jac(6,12)] is given; [this->H = jac] copies the whole of
    [jac]. *)
Definition updateJacobians (s : State T) (heap : nat -> nat -> T)
  : Method T E unit :=
  modify_this (set_H setZero) ;;
  m <- get_this ;;
  print (string_of_nat (rows (H m)) ++ ", " ++ string_of_nat (cols (H m))
         ++ endl) ;;
  let jac := uninitialized 6 12 heap in
  let xx := x s in
  jac <- num_diff_df xx jac ;;
  modify_this (set_H (fun _ => jac)).

(** The calls a filter makes on a model.  A failed [updateJacobians] leaves
    the object as it was when the call ended, and the filter goes on. *)
Inductive Call :=
| CallH (s : State T)
| CallUpdateJacobians (s : State T) (heap : nat -> nat -> T).

Definition exec (c : Call) (w : Env T E) : Env T E :=
  match c with
  | CallH s => let _ := h (this w) s in w
  | CallUpdateJacobians s heap => fst (updateJacobians s heap w)
  end.

Definition run (cs : list Call) (w : Env T E) : Env T E :=
  fold_left (fun w c => exec c w) cs w.

(** How many of the calls [cs] are calls of [updateJacobians]. *)
Definition count_updates (cs : list Call) : nat :=
  length (filter (fun c => match c with
                           | CallH _ => false
                           | CallUpdateJacobians _ _ => true
                           end) cs).

End LiePositionMeasurementModel.

(** ** The numerical differentiation engine *)

Module NumericalDiff.

(** Modelled from the spec: the differencing mode of the engine of
    [kalman_lie/NumericalDiff.hpp], which is not among the sources. *)
Inductive Mode := Forward | Central.

(** Modelled from the spec: the configuration of the engine of
    [kalman_lie/NumericalDiff.hpp], which is not among the sources: the
    absolute step floor, the relative step scale and the differencing
    mode. *)
Record Params (T : Type) := mkParams {
  eps_base : T;
  eps_rel : T;
  mode : Mode
}.

Section Engine.
Context {T : Type} {ST : Scalar T} {AT : Arith T}.

(** [std::max]. *)
Definition smax (a b : T) : T := if sltb a b then b else a.

Definition is_positive (a : T) : bool := sltb zero a.

Definition two : T := sadd one one.

(** Modelled from the spec: step-size parameters are valid when both are
    positive. *)
Definition valid (p : Params T) : bool :=
  is_positive (eps_base p) && is_positive (eps_rel p).

(** Modelled from the spec: step 2a of the engine,
    [eps_j = max(eps_base, eps_rel * |x0[j]|)]. *)
Definition step_size (p : Params T) (xj : T) : T :=
  smax (eps_base p) (smul (eps_rel p) (sabs xj)).

(** Modelled from the spec: step 2b, [x0] with component [j] incremented by
    [e]. *)
Fixpoint perturb (x0 : Vector T) (j : nat) (e : T) : Vector T :=
  match x0, j with
  | [], _ => []
  | a :: t, O => sadd a e :: t
  | a :: t, S j' => a :: perturb t j' e
  end.

(** Modelled from the spec: one evaluation of [f] by the engine.  A value
    whose size is not the declared output dimension is a dimension mismatch;
    the status code has no role. *)
Definition evaluate (F : Functor T) (x0 : Vector T) : result (Vector T) :=
  let fvec := snd (call F x0) in
  if (Z.of_nat (length fvec) =? values F)%Z then Ok fvec
  else Failed DimensionMismatch.

(** Modelled from the spec: the quotient of step 2d, [(a - b) / d],
    coefficient by coefficient. *)
Definition difference_quotient (a b : Vector T) (d : T) : Vector T :=
  map (fun ab => sdiv (ssub (fst ab) (snd ab)) d) (combine a b).

(** Modelled from the spec: steps 2a to 2d for the input dimension [j],
    [(f_plus - f0) / eps_j] in forward mode and
    [(f_plus - f_minus) / (2 eps_j)] in central mode. *)
Definition column (p : Params T) (F : Functor T) (x0 f0 : Vector T) (j : nat)
  : result (Vector T) :=
  let e := step_size p (nth j x0 zero) in
  match mode p with
  | Forward =>
      match evaluate F (perturb x0 j e) with
      | Ok f_plus => Ok (difference_quotient f_plus f0 e)
      | Failed err => Failed err
      end
  | Central =>
      match evaluate F (perturb x0 j e) with
      | Ok f_plus =>
          match evaluate F (perturb x0 j (sopp e)) with
          | Ok f_minus => Ok (difference_quotient f_plus f_minus (smul two e))
          | Failed err => Failed err
          end
      | Failed err => Failed err
      end
  end.

(** Modelled from the spec: writing column [j] of [J].  A column that [J]
    does not have, or one of another height, is refused: nothing is cut or
    filled up to fit. *)
Fixpoint set_col (j : nat) (c : Vector T) (J : Matrix T)
  : result (Matrix T) :=
  match J, j with
  | [], _ => Failed DimensionMismatch
  | old :: rest, O =>
      if length old =? length c then Ok (c :: rest)
      else Failed DimensionMismatch
  | old :: rest, S j' =>
      match set_col j' c rest with
      | Ok rest' => Ok (old :: rest')
      | Failed err => Failed err
      end
  end.

(** Modelled from the spec: step 2, for the input dimensions [js] in
    turn. *)
Fixpoint fill (p : Params T) (F : Functor T) (x0 f0 : Vector T)
    (js : list nat) (J : Matrix T) : result (Matrix T) :=
  match js with
  | [] => Ok J
  | j :: js' =>
      match column p F x0 f0 j with
      | Ok c =>
          match set_col j c J with
          | Ok J' => fill p F x0 f0 js' J'
          | Failed err => Failed err
          end
      | Failed err => Failed err
      end
  end.

(** Modelled from the spec: [NumericalDiffFunctor::df] of
    [kalman_lie/NumericalDiff.hpp], which is not among the sources.  The
    finite-difference algorithm of the design document, in the arithmetic of
    the scalar type: the declared input dimension is checked against [x0],
    the step-size parameters are checked, [f0 = f(x0)] is evaluated, and for
    each input dimension [j] in [[0, n_in)] column [j] of the caller's
    matrix [J] is set.  The caller sizes [J] itself and reads it after the
    call, so the matrix is returned with its other columns as they were. *)
Definition df (p : Params T) (F : Functor T) (x0 : Vector T) (J : Matrix T)
  : result (Matrix T) :=
  if negb (Z.of_nat (length x0) =? inputs F)%Z then Failed DimensionMismatch
  else if negb (valid p) then Failed ConfigurationError
  else
    match evaluate F x0 with
    | Ok f0 => fill p F x0 f0 (seq 0 (Z.to_nat (inputs F))) J
    | Failed err => Failed err
    end.

(** *** Functions to differentiate *)

Definition vadd (a b : Vector T) : Vector T :=
  map (fun ab => sadd (fst ab) (snd ab)) (combine a b).

Definition scale (k : T) (c : Vector T) : Vector T := map (smul k) c.

(** The product [A x] of an [r]-row matrix with a vector. *)
Fixpoint mat_vec (r : nat) (A : Matrix T) (x0 : Vector T) : Vector T :=
  match A, x0 with
  | c :: A', xj :: x' => vadd (scale xj c) (mat_vec r A' x')
  | _, _ => repeat zero r
  end.

(** The linear function [f(x) = A x]. *)
Definition linear (r : nat) (A : Matrix T) : Functor T :=
  {| call := fun x0 => (0%Z, mat_vec r A x0);
     inputs := Z.of_nat (length A);
     values := Z.of_nat r |}.

(** The identity function on vectors of [n] coefficients. *)
Definition identity_function (n : nat) : Functor T :=
  {| call := fun x0 => (0%Z, x0);
     inputs := Z.of_nat n;
     values := Z.of_nat n |}.

(** The finite-difference quotient of a function [f] along coordinate [j]:
    [(f_plus - f0) / eps_j] for forward differences and
    [(f_plus - f_minus) / (2 eps_j)] for central differences. *)
Definition finite_difference (p : Params T) (f : Vector T -> Vector T)
    (x0 : Vector T) (j : nat) : Vector T :=
  let eps_j := step_size p (nth j x0 zero) in
  let f0 := f x0 in
  let f_plus := f (perturb x0 j eps_j) in
  let f_minus := f (perturb x0 j (sopp eps_j)) in
  match mode p with
  | Forward => difference_quotient f_plus f0 eps_j
  | Central => difference_quotient f_plus f_minus (smul two eps_j)
  end.

End Engine.

End NumericalDiff.

(** ** The model on binary64, with the engine above *)

Module Lie.
Import NumericalDiff.
Local Open Scope float_scope.

Definition LieModel := Model double (Params double).

Fixpoint double_of_positive (p : positive) : double :=
  match p with
  | xH => 1
  | xO q => 2 * double_of_positive q
  | xI q => 2 * double_of_positive q + 1
  end.

Definition double_of_Z (z : Z) : double :=
  match z with
  | Z0 => 0
  | Zpos p => double_of_positive p
  | Zneg p => - double_of_positive p
  end.

Definition vector_of_Z (l : list Z) : Vector double := map double_of_Z l.

(** A default-constructed state: six coordinates and six velocities. *)
Definition S0 : State double :=
  {| x := vector_of_Z [0; 0; 0; 0; 0; 0]%Z; v := vector_of_Z [0; 0; 0; 0; 0; 0]%Z |}.

Definition linearize (s : State double) (heap : nat -> nat -> double)
  : Method double (Params double) unit :=
  updateJacobians df S0 s heap.

(** The state with coordinates [1, 2, 3, 4, 5, 6] and velocity [vel]. *)
Definition s123456 (vel : Vector double) : State double :=
  {| x := vector_of_Z [1; 2; 3; 4; 5; 6]%Z; v := vel |}.

(** Step-size parameters [eps_base = 1/1000], [eps_rel = 1/100], each
    rounded to binary64. *)
Definition params (md : Mode) : Params double :=
  {| eps_base := 0x1.0624dd2f1a9fcp-10;
     eps_rel := 0x1.47ae147ae147bp-7;
     mode := md |}.

(** Step-size parameters [eps_base = eps_rel = 2^-26], the square root of
    the machine epsilon of binary64. *)
Definition sqrt_epsilon (md : Mode) : Params double :=
  {| eps_base := 0x1p-26; eps_rel := 0x1p-26; mode := md |}.

(** Step-size parameters [eps_base = eps_rel = 2^-200]. *)
Definition tiny (md : Mode) : Params double :=
  {| eps_base := 0x1p-200; eps_rel := 0x1p-200; mode := md |}.

(** A model as the base-class constructors leave it: [H] is 6 by 12, [V]
    and the covariance are 6 by 6. *)
Definition base (md : Mode) : LieModel :=
  {| H := uninitialized 6 12 (fun _ _ => 7);
     V := uninitialized 6 6 (fun _ _ => 7);
     covariance := identity 6;
     num_diff := params md |}.

Definition model (md : Mode) : LieModel :=
  LiePositionMeasurementModel_ctor (base md).

Definition start (md : Mode) : Env double (Params double) :=
  {| this := model md; cout := EmptyString |}.

(** The same model with the step sizes [sqrt_epsilon]. *)
Definition start_sqrt_epsilon (md : Mode) : Env double (Params double) :=
  {| this := LiePositionMeasurementModel_ctor
               {| H := uninitialized 6 12 (fun _ _ => 7);
                  V := uninitialized 6 6 (fun _ _ => 7);
                  covariance := identity 6;
                  num_diff := sqrt_epsilon md |};
     cout := EmptyString |}.

(** A matrix of two rows and three columns, and a point to differentiate
    at. *)
Definition A23 : Matrix double := map vector_of_Z [[1; 2]; [3; 4]; [5; 6]]%Z.

Definition x3 : Vector double := vector_of_Z [5; -2; 0]%Z.

End Lie.

(** ** Values in exact arithmetic *)

Module Exact.
Import NumericalDiff.

Definition vector_of_Z (l : list Z) : Vector Qc :=
  map (fun z => Q2Qc (inject_Z z)) l.

(** Step-size parameters [eps_base = 1/1000], [eps_rel = 1/100]. *)
Definition params (md : Mode) : Params Qc :=
  {| eps_base := Q2Qc (1 # 1000); eps_rel := Q2Qc (1 # 100); mode := md |}.

Definition A23 : Matrix Qc := map vector_of_Z [[1; 2]; [3; 4]; [5; 6]]%Z.

Definition x3 : Vector Qc := vector_of_Z [5; -2; 0]%Z.

End Exact.

(** * Properties *)

(** ** The measurement function, the functor and the frame of
       [updateJacobians], for every scalar type and every engine *)

Section ModelFacts.
Context {T : Type} {ST : Scalar T} {E : Type}.
Variable df : E -> Functor T -> Vector T -> Matrix T -> result (Matrix T).
Variable S_default : State T.

(** [updateJacobians] in one step: the engine runs on the object whose [H]
    is already zero, and its outcome decides what [H] holds at the end. *)
Lemma updateJacobians_unfold (s : State T) (heap : nat -> nat -> T)
    (w : Env T E) :
  updateJacobians df S_default s heap w =
    let m0 := set_H setZero (this w) in
    let out := (cout w ++ report m0)%string in
    match df (num_diff m0) (LieFunctor S_default m0) (x s)
             (uninitialized 6 12 heap) with
    | Ok jac => ({| this := set_H (fun _ => jac) m0; cout := out |}, Ok tt)
    | Failed e => ({| this := m0; cout := out |}, Failed e)
    end.
Proof.
  unfold updateJacobians, num_diff_df, bind, modify_this, get_this, print,
    lift, report.
  cbn [fst snd this cout].
  destruct (df _ _ _ _); reflexivity.
Qed.

Lemma set_H_V (f : Matrix T -> Matrix T) (m : Model T E) :
  V (set_H f m) = V m.
Proof. reflexivity. Qed.

(** The object after [updateJacobians] is the object before it with a new
    [H]. *)
Lemma updateJacobians_this (s : State T) (heap : nat -> nat -> T)
    (w : Env T E) :
  this (fst (updateJacobians df S_default s heap w)) =
    set_H (fun old =>
             match df (num_diff (this w))
                      (LieFunctor S_default (set_H setZero (this w))) (x s)
                      (uninitialized 6 12 heap) with
             | Ok jac => jac
             | Failed _ => setZero old
             end) (this w).
Proof.
  rewrite updateJacobians_unfold. cbn zeta.
  change (num_diff (set_H setZero (this w))) with (num_diff (this w)).
  destruct (df _ _ _ _); reflexivity.
Qed.

Lemma exec_V (c : Call) (w : Env T E) :
  V (this (exec df S_default c w)) = V (this w).
Proof.
  destruct c as [s | s heap]; cbn [exec]; [reflexivity |].
  rewrite updateJacobians_this. apply set_H_V.
Qed.

Lemma run_V (cs : list Call) :
  forall w : Env T E, V (this (run df S_default cs w)) = V (this w).
Proof.
  induction cs as [| c cs IH]; intros w; [reflexivity |].
  cbn [run fold_left]. fold (run df S_default cs (exec df S_default c w)).
  rewrite IH. apply exec_V.
Qed.

End ModelFacts.

(** ** Matrices *)

Section MatrixFacts.
Context {T : Type} {ST : Scalar T}.

Lemma map_nth_seq (A : Type) (l : list A) (d : A) :
  map (fun j => nth j l d) (seq 0 (length l)) = l.
Proof.
  induction l as [| a l IH]; [reflexivity |].
  cbn [length seq map nth]. f_equal.
  rewrite <- seq_shift, map_map. exact IH.
Qed.

Lemma has_shape_length (r c : nat) (M : Matrix T) :
  has_shape r c M = true -> length M = c.
Proof.
  unfold has_shape. intros Hs. apply andb_prop in Hs.
  apply Nat.eqb_eq. exact (proj1 Hs).
Qed.

Lemma has_shape_columns (r c : nat) (M : Matrix T) :
  has_shape r c M = true -> Forall (fun col => length col = r) M.
Proof.
  unfold has_shape. intros Hs. apply andb_prop in Hs.
  destruct Hs as [_ Hall]. apply Forall_forall. intros col Hin.
  rewrite forallb_forall in Hall. apply Nat.eqb_eq. exact (Hall col Hin).
Qed.

Lemma setIdentity_from (n : nat) (M : Matrix T) :
  Forall (fun col => length col = n) M ->
  forall k,
    map (fun jc : nat * Vector T => basis (length (snd jc)) (fst jc))
        (combine (seq k (length M)) M)
    = map (basis n) (seq k (length M)).
Proof.
  induction 1 as [| col M Hcol _ IH]; intros k; [reflexivity |].
  cbn [length seq combine map fst snd]. rewrite Hcol, IH. reflexivity.
Qed.

(** On a square matrix [setIdentity] gives the identity matrix. *)
Lemma setIdentity_square (n : nat) (M : Matrix T) :
  has_shape n n M = true -> setIdentity M = identity n.
Proof.
  intros Hs. unfold setIdentity, identity.
  rewrite (setIdentity_from (has_shape_columns _ _ _ Hs)).
  rewrite (has_shape_length _ _ _ Hs). reflexivity.
Qed.

End MatrixFacts.


(** ** The differentiation engine, in every arithmetic *)

Module NumericalDiffFacts.
Import NumericalDiff.

Section Structure.
Context {T : Type} {ST : Scalar T} {AT : Arith T}.

Lemma length_perturb (e : T) :
  forall (x0 : Vector T) (j : nat), length (perturb x0 j e) = length x0.
Proof.
  induction x0 as [| a x0 IH]; intros [| j]; cbn [perturb length];
    try reflexivity.
  rewrite IH. reflexivity.
Qed.

Lemma length_difference_quotient (a b : Vector T) (d : T) :
  length (difference_quotient a b d) = Nat.min (length a) (length b).
Proof. unfold difference_quotient. rewrite length_map. apply length_combine. Qed.

Lemma length_vadd (a b : Vector T) :
  length (vadd a b) = Nat.min (length a) (length b).
Proof. unfold vadd. rewrite length_map. apply length_combine. Qed.

Lemma length_scale (k : T) (c : Vector T) : length (scale k c) = length c.
Proof. apply length_map. Qed.

Lemma length_mat_vec (r : nat) (A : Matrix T) :
  Forall (fun col => length col = r) A ->
  forall x0, length (mat_vec r A x0) = r.
Proof.
  induction 1 as [| c A Hc _ IH]; intros x0; cbn [mat_vec].
  - apply repeat_length.
  - destruct x0 as [| a x0]; [apply repeat_length |].
    rewrite length_vadd, length_scale, Hc, IH. apply Nat.min_id.
Qed.

Lemma set_col_app (c old : Vector T) (R : Matrix T) :
  length old = length c ->
  forall P, set_col (length P) c (P ++ old :: R) = Ok (P ++ c :: R).
Proof.
  intros Hlen. induction P as [| q P IH]; cbn [length app set_col].
  - rewrite Hlen, Nat.eqb_refl. reflexivity.
  - rewrite IH. reflexivity.
Qed.

(** A functor that evaluates to [f y], of [r] coefficients, on every vector
    [y] of the size of [x0]: the engine writes the finite-difference
    quotients of [f] into the first columns of the work matrix and leaves
    the columns [J2] behind them alone. *)
Section Columns.
Variable p : Params T.
Variable F : Functor T.
Variable x0 : Vector T.
Variable f : Vector T -> Vector T.
Variable r : nat.

Hypothesis p_valid : valid p = true.
Hypothesis x0_declared : Z.of_nat (length x0) = inputs F.
Hypothesis F_evaluates : forall y, length y = length x0 ->
  evaluate F y = Ok (f y).
Hypothesis f_size : forall y, length y = length x0 -> length (f y) = r.

Lemma column_finite_difference (j : nat) :
  column p F x0 (f x0) j = Ok (finite_difference p f x0 j).
Proof.
  unfold column, finite_difference. cbn zeta.
  destruct (mode p); rewrite !F_evaluates by apply length_perturb;
    reflexivity.
Qed.

Lemma length_finite_difference (j : nat) :
  length (finite_difference p f x0 j) = r.
Proof.
  unfold finite_difference. cbn zeta.
  destruct (mode p); rewrite length_difference_quotient,
    !f_size by (reflexivity || apply length_perturb); apply Nat.min_id.
Qed.

Lemma fill_columns (J2 : Matrix T) :
  forall (n k : nat) (P J1 : Matrix T),
    length P = k ->
    length J1 = n ->
    Forall (fun col => length col = r) J1 ->
    fill p F x0 (f x0) (seq k n) (P ++ J1 ++ J2)
    = Ok (P ++ map (finite_difference p f x0) (seq k n) ++ J2).
Proof.
  induction n as [| n IH]; intros k P J1 HP Hlen HJ1.
  - destruct J1; [reflexivity | discriminate Hlen].
  - destruct J1 as [| old J1]; [discriminate Hlen |].
    cbn [seq fill map]. rewrite column_finite_difference.
    cbn [app]. rewrite <- HP, set_col_app.
    + replace (P ++ finite_difference p f x0 (length P) :: J1 ++ J2)
        with ((P ++ [finite_difference p f x0 (length P)]) ++ J1 ++ J2)
        by (rewrite <- app_assoc; reflexivity).
      rewrite (IH (S (length P))).
      * rewrite <- app_assoc. reflexivity.
      * rewrite length_app. cbn [length]. lia.
      * cbn [length] in Hlen. lia.
      * inversion HJ1; assumption.
    + inversion HJ1 as [| ? ? Hold _].
      rewrite Hold, length_finite_difference. reflexivity.
Qed.

Lemma df_columns (J1 J2 : Matrix T) :
  length J1 = length x0 ->
  Forall (fun col => length col = r) J1 ->
  df p F x0 (J1 ++ J2)
  = Ok (map (finite_difference p f x0) (seq 0 (length x0)) ++ J2).
Proof.
  intros Hlen HJ1. unfold df.
  rewrite x0_declared, Z.eqb_refl, p_valid. cbn [negb].
  rewrite (F_evaluates x0 eq_refl).
  rewrite <- x0_declared, Nat2Z.id.
  apply (@fill_columns J2 (length x0) 0 [] J1 eq_refl Hlen HJ1).
Qed.

End Columns.

Lemma evaluate_linear (r : nat) (A : Matrix T) (x0 : Vector T) :
  Forall (fun col => length col = r) A ->
  evaluate (linear r A) x0 = Ok (mat_vec r A x0).
Proof.
  intros HA. unfold evaluate, linear. cbn [call values snd].
  rewrite (length_mat_vec HA), Z.eqb_refl. reflexivity.
Qed.

(** The engine on a linear function: its columns are the finite-difference
    quotients of [A x]. *)
Lemma df_linear (p : Params T) (r : nat) (A : Matrix T) (x0 : Vector T)
    (J : Matrix T) :
  valid p = true ->
  has_shape r (length x0) A = true ->
  has_shape r (length x0) J = true ->
  df p (linear r A) x0 J
  = Ok (map (finite_difference p (mat_vec r A) x0) (seq 0 (length x0))).
Proof.
  intros Hp HA HJ.
  pose proof (has_shape_columns _ _ _ HA) as Hcols.
  rewrite <- (app_nil_r J).
  rewrite <- (app_nil_r (map _ _)).
  apply (@df_columns p (linear r A) x0 (mat_vec r A) r).
  - exact Hp.
  - cbn [linear inputs]. rewrite (has_shape_length _ _ _ HA). reflexivity.
  - intros y _. apply evaluate_linear, Hcols.
  - intros y _. apply length_mat_vec, Hcols.
  - apply (has_shape_length _ _ _ HJ).
  - apply (has_shape_columns _ _ _ HJ).
Qed.

(** With a coordinate vector of another length than the functor declares,
    the engine refuses, in every arithmetic. *)
Lemma df_LieFunctor_mismatch (E : Type) (S_default : State T)
    (p : Params T) (m : Model T E) (x0 : Vector T) (J : Matrix T) :
  length x0 <> 6 ->
  df p (LieFunctor S_default m) x0 J = Failed DimensionMismatch.
Proof.
  intros Hx. unfold df. cbn [inputs LieFunctor].
  destruct (Z.eqb_spec (Z.of_nat (length x0)) LieFunctor_inputs) as [Heq | _];
    [| reflexivity].
  exfalso. apply Hx. unfold LieFunctor_inputs in Heq. lia.
Qed.

End Structure.

End NumericalDiffFacts.

(** ** The differentiation engine in exact arithmetic *)

Module ExactFacts.
Import NumericalDiff NumericalDiffFacts.
Local Open Scope Qc_scope.

Ltac exact_ops :=
  cbn [sadd ssub smul sdiv sopp sabs sltb Qc_Arith zero one Qc_Scalar] in *.

Lemma is_positive_lt (a : Qc) : is_positive a = true -> 0 < a.
Proof.
  unfold is_positive. exact_ops. intros Hp. apply Qclt_alt.
  destruct (0 ?= a); congruence.
Qed.

Lemma smax_ge_l (a b : Qc) : a <= smax a b.
Proof.
  unfold smax. exact_ops. destruct (a ?= b) eqn:Hc; try apply Qcle_refl.
  apply Qclt_le_weak, Qclt_alt, Hc.
Qed.

(** A valid configuration never yields a zero step. *)
Lemma step_size_pos (p : Params Qc) (a : Qc) :
  valid p = true -> 0 < step_size p a.
Proof.
  unfold valid. intros Hv. apply andb_prop in Hv.
  eapply Qclt_le_trans; [apply is_positive_lt, (proj1 Hv) | apply smax_ge_l].
Qed.

Lemma step_size_nonzero (p : Params Qc) (a : Qc) :
  valid p = true -> step_size p a <> 0.
Proof.
  intros Hv Hz. pose proof (step_size_pos p a Hv) as Hp.
  rewrite Hz in Hp. exact (Qclt_not_eq _ _ Hp eq_refl).
Qed.

Lemma one_plus_one_nonzero : 1 + 1 <> 0.
Proof.
  intros Hz. apply (f_equal Qcanon.this) in Hz. vm_compute in Hz.
  discriminate Hz.
Qed.

Lemma vadd_assoc (a b c : Vector Qc) :
  vadd a (vadd b c) = vadd (vadd a b) c.
Proof.
  revert b c. induction a as [| ai a IH]; intros [| bi b] [| ci c];
    try reflexivity.
  unfold vadd in *. cbn [combine map fst snd]. f_equal; [| apply IH].
  exact_ops. ring.
Qed.

Lemma vadd_scale_plus (k e : Qc) (c m : Vector Qc) :
  vadd (scale (k + e) c) m = vadd (vadd (scale k c) m) (scale e c).
Proof.
  revert m. induction c as [| ci c IH]; intros [| mi m]; try reflexivity.
  unfold vadd, scale in *. cbn [combine map fst snd].
  f_equal; [| apply IH]. exact_ops. ring.
Qed.

(** Moving along coordinate [j] by [e] moves [A x] by [e] times column
    [j] of [A]. *)
Lemma mat_vec_perturb (r : nat) (e : Qc) (A : Matrix Qc) :
  forall (x0 : Vector Qc) (j : nat),
    (j < length A)%nat -> (j < length x0)%nat ->
    mat_vec r A (perturb x0 j e)
    = vadd (mat_vec r A x0) (scale e (nth j A nil)).
Proof.
  induction A as [| c A IH]; intros x0 j HjA Hjx; [inversion HjA |].
  destruct x0 as [| a x0]; [inversion Hjx |].
  destruct j as [| j]; cbn [perturb mat_vec nth].
  - apply vadd_scale_plus.
  - cbn [length] in HjA, Hjx.
    rewrite IH by lia. apply vadd_assoc.
Qed.

Lemma difference_quotient_forward (e : Qc) (u : Vector Qc) :
  e <> 0 ->
  forall c, length u = length c ->
    difference_quotient (vadd u (scale e c)) u e = c.
Proof.
  intros He. induction u as [| ui u IH]; intros [| ci c] Hlen;
    try discriminate Hlen; [reflexivity |].
  unfold difference_quotient, vadd, scale in *.
  cbn [combine map fst snd]. f_equal.
  - exact_ops. field. exact He.
  - apply IH. cbn [length] in Hlen. lia.
Qed.

Lemma difference_quotient_central (e : Qc) (u : Vector Qc) :
  e <> 0 ->
  forall c, length u = length c ->
    difference_quotient (vadd u (scale e c)) (vadd u (scale (- e) c))
                        (smul two e) = c.
Proof.
  intros He. induction u as [| ui u IH]; intros [| ci c] Hlen;
    try discriminate Hlen; [reflexivity |].
  unfold difference_quotient, vadd, scale, two in *.
  cbn [combine map fst snd]. f_equal.
  - exact_ops. field. split; [exact He | exact one_plus_one_nonzero].
  - apply IH. cbn [length] in Hlen. lia.
Qed.

(** For the linear function [A x] the finite-difference quotient along
    coordinate [j] is column [j] of [A]. *)
Lemma finite_difference_linear (p : Params Qc) (r : nat) (A : Matrix Qc)
    (x0 : Vector Qc) (j : nat) :
  valid p = true ->
  Forall (fun col => length col = r) A ->
  length A = length x0 ->
  (j < length x0)%nat ->
  finite_difference p (mat_vec r A) x0 j = nth j A nil.
Proof.
  intros Hp Hcols Hwidth Hj.
  assert (Hlen : length (mat_vec r A x0) = length (nth j A nil)).
  { rewrite (length_mat_vec Hcols). symmetry.
    rewrite Forall_forall in Hcols. apply Hcols, nth_In. lia. }
  pose proof (step_size_nonzero p (nth j x0 zero) Hp) as He.
  unfold finite_difference. cbn zeta.
  rewrite !mat_vec_perturb by lia.
  destruct (mode p).
  - apply difference_quotient_forward; assumption.
  - apply difference_quotient_central; assumption.
Qed.

Lemma scale_basis_zero (e : Qc) (k j : nat) :
  forall n, (j < k)%nat ->
    scale e (map (fun i => if (i =? j)%nat then one else zero) (seq k n))
    = repeat 0 n.
Proof.
  induction n as [| n IH] in k |- *; intros Hjk; [reflexivity |].
  unfold scale in *. cbn [seq map repeat].
  destruct (Nat.eqb_spec k j) as [-> | _]; [lia |].
  f_equal; [exact_ops; ring | apply IH; lia].
Qed.

Lemma vadd_zero (u : Vector Qc) : vadd u (repeat 0 (length u)) = u.
Proof.
  induction u as [| a u IH]; [reflexivity |].
  unfold vadd in *. cbn [length repeat combine map fst snd].
  f_equal; [exact_ops; ring | exact IH].
Qed.

Lemma perturb_basis_from (e : Qc) :
  forall (x0 : Vector Qc) (j k : nat),
    (j < length x0)%nat ->
    perturb x0 j e
    = vadd x0 (scale e
                 (map (fun i => if (i =? k + j)%nat then one else zero)
                      (seq k (length x0)))).
Proof.
  induction x0 as [| a x0 IH]; intros j k Hj; [inversion Hj |].
  destruct j as [| j]; cbn [perturb length seq].
  - unfold scale at 1. cbn [map].
    rewrite Nat.add_0_r, Nat.eqb_refl.
    fold (scale e (map (fun i => if (i =? k)%nat then one else zero)
                      (seq (S k) (length x0)))).
    rewrite (scale_basis_zero e (length x0) (k := S k) (j := k)) by lia.
    unfold vadd at 1. cbn [combine map fst snd].
    fold (vadd x0 (repeat 0 (length x0))). rewrite vadd_zero.
    f_equal. exact_ops. ring.
  - unfold scale at 1. cbn [map].
    destruct (Nat.eqb_spec k (k + S j)) as [Heq | _]; [lia |].
    fold (scale e (map (fun i => if (i =? k + S j)%nat then one else zero)
                      (seq (S k) (length x0)))).
    unfold vadd at 1. cbn [combine map fst snd].
    rewrite (IH j (S k)) by (cbn [length] in Hj; lia).
    replace (S k + j)%nat with (k + S j)%nat by lia.
    f_equal. exact_ops. ring.
Qed.

(** Moving coordinate [j] by [e] adds [e] times the [j]-th unit vector. *)
Lemma perturb_basis (e : Qc) (x0 : Vector Qc) (j : nat) :
  (j < length x0)%nat ->
  perturb x0 j e = vadd x0 (scale e (basis (length x0) j)).
Proof.
  intros Hj. unfold basis.
  apply (perturb_basis_from e x0 (j := j) 0 Hj).
Qed.

Lemma length_basis (n j : nat) : length (basis (T := Qc) n j) = n.
Proof. unfold basis. rewrite length_map. apply length_seq. Qed.

(** For the identity function the finite-difference quotient along
    coordinate [j] is the [j]-th unit vector. *)
Lemma finite_difference_identity (p : Params Qc) (x0 : Vector Qc) (j : nat) :
  valid p = true ->
  (j < length x0)%nat ->
  finite_difference p (fun y => y) x0 j = basis (length x0) j.
Proof.
  intros Hp Hj.
  pose proof (step_size_nonzero p (nth j x0 zero) Hp) as He.
  unfold finite_difference. cbn zeta.
  rewrite !perturb_basis by exact Hj.
  destruct (mode p).
  - apply difference_quotient_forward;
      [exact He | rewrite length_basis; reflexivity].
  - apply difference_quotient_central;
      [exact He | rewrite length_basis; reflexivity].
Qed.

End ExactFacts.
(** ** The console, and calls in sequence *)

Section Further.
Context {T : Type} {ST : Scalar T} {E : Type}.
Variable engine : E -> Functor T -> Vector T -> Matrix T -> result (Matrix T).
Variable S_default : State T.

Lemma rows_setZero (M : Matrix T) : rows (setZero M) = rows M.
Proof. destruct M as [| c M]; [reflexivity |]. apply length_map. Qed.

Lemma cols_setZero (M : Matrix T) : cols (setZero M) = cols M.
Proof. apply length_map. Qed.

(** [setZero] leaves a zero in every coefficient. *)
Lemma setZero_repeat (M : Matrix T) :
  setZero M = map (fun col => repeat zero (length col)) M.
Proof.
  unfold setZero, vsetZero. apply map_ext. intros col.
  induction col as [| a col IH]; [reflexivity |].
  cbn [map length repeat]. rewrite IH. reflexivity.
Qed.

Lemma setZero_setZero (M : Matrix T) : setZero (setZero M) = setZero M.
Proof.
  unfold setZero, vsetZero. rewrite map_map. apply map_ext.
  intros c. rewrite map_map. reflexivity.
Qed.

Lemma report_setZero (m : Model T E) : report (set_H setZero m) = report m.
Proof.
  unfold report. cbn [H set_H]. rewrite rows_setZero, cols_setZero.
  reflexivity.
Qed.

Lemma updateJacobians_cout (s : State T) (heap : nat -> nat -> T)
    (w : Env T E) :
  cout (fst (updateJacobians engine S_default s heap w))
  = (cout w ++ report (this w))%string.
Proof.
  rewrite updateJacobians_unfold. cbn zeta. rewrite report_setZero.
  destruct (engine _ _ _ _); reflexivity.
Qed.

(** [updateJacobians] with the functor bound to any object [m]: the functor
    evaluates [h], which reads nothing of the object. *)
Lemma updateJacobians_unfold_any (m : Model T E) (s : State T)
    (heap : nat -> nat -> T) (w : Env T E) :
  updateJacobians engine S_default s heap w =
    match engine (num_diff (this w)) (LieFunctor S_default m) (x s)
                 (uninitialized 6 12 heap) with
    | Ok jac =>
        ({| this := set_H (fun _ => jac) (this w);
            cout := (cout w ++ report (this w))%string |}, Ok tt)
    | Failed e =>
        ({| this := set_H setZero (this w);
            cout := (cout w ++ report (this w))%string |}, Failed e)
    end.
Proof.
  rewrite updateJacobians_unfold. cbn zeta. rewrite report_setZero.
  change (LieFunctor S_default (set_H setZero (this w)))
    with (LieFunctor S_default m).
  change (num_diff (set_H setZero (this w))) with (num_diff (this w)).
  destruct (engine _ _ _ _); reflexivity.
Qed.

Lemma set_H_const_id (m : Model T E) : set_H (fun _ => H m) m = m.
Proof. destruct m; reflexivity. Qed.

Lemma exec_frame (c : Call) (w : Env T E) :
  this (exec engine S_default c w)
  = set_H (fun _ => H (this (exec engine S_default c w))) (this w).
Proof.
  destruct c as [s | s heap]; cbn [exec].
  - symmetry. apply set_H_const_id.
  - rewrite updateJacobians_this. reflexivity.
Qed.

Lemma lines_app (s1 s2 : string) :
  lines (append s1 s2) = (lines s1 + lines s2)%nat.
Proof.
  induction s1 as [| c s1 IH]; [reflexivity |].
  cbn [append lines]. rewrite IH. lia.
Qed.

Lemma lines_uint (d : Decimal.uint) :
  lines (NilEmpty.string_of_uint d) = 0%nat.
Proof. induction d; cbn; assumption || reflexivity. Qed.

Lemma lines_string_of_nat (n : nat) : lines (string_of_nat n) = 0%nat.
Proof.
  unfold string_of_nat, NilZero.string_of_uint.
  destruct (Nat.to_uint n) eqn:Hd; try reflexivity; rewrite <- Hd;
    apply lines_uint.
Qed.

Lemma lines_report (m : Model T E) : lines (report m) = 1%nat.
Proof.
  unfold report. rewrite !lines_app, !lines_string_of_nat. reflexivity.
Qed.

End Further.

(** * The claims *)

Import NumericalDiff.
Unset Implicit Arguments.

(** C1 (as amended).  On binary64, with the step sizes
    [eps_base = eps_rel = 2^-26] (the square root of the machine epsilon) in
    either mode, [linearize] on the state [1,2,3,4,5,6] stores an [H] of
    twelve columns, the width of the work matrix, whose first six columns
    are the 6 by 6 identity matrix.  And in exact arithmetic, with valid
    step sizes, the finite-difference Jacobian of the identity function on
    vectors of [n] coefficients, computed into an [n] by [n] matrix, is the
    [n] by [n] identity matrix at every evaluation point. *)
Theorem linearize_identity_block
    (md : Mode) (vel : Vector double) (heap : nat -> nat -> double)
    (w : Env double (Params double))
    (p : Params Qc) (x0 : Vector Qc) (J : Matrix Qc) :
  num_diff (this w) = Lie.sqrt_epsilon md ->
  valid p = true ->
  has_shape (length x0) (length x0) J = true ->
  (firstn 6 (H (this (fst (Lie.linearize (Lie.s123456 vel) heap w))))
   = identity 6
   /\ length (H (this (fst (Lie.linearize (Lie.s123456 vel) heap w))))
      = 12)
  /\ df p (identity_function (length x0)) x0 J = Ok (identity (length x0)).
Proof.
  intros Hw Hp HJ. split.
  - unfold Lie.linearize. rewrite updateJacobians_this. cbn [H set_H].
    rewrite Hw. destruct md; vm_compute; split; reflexivity.
  - rewrite <- (app_nil_r J), <- (app_nil_r (identity (length x0))).
    rewrite (@NumericalDiffFacts.df_columns Qc _ _ p
               (identity_function (length x0)) x0 (fun y => y) (length x0)).
    + f_equal. f_equal. unfold identity. apply map_ext_in.
      intros j Hj. apply in_seq in Hj.
      apply ExactFacts.finite_difference_identity; [exact Hp | lia].
    + exact Hp.
    + reflexivity.
    + intros y Hy. unfold evaluate.
      cbn [identity_function call values snd].
      rewrite Hy, Z.eqb_refl. reflexivity.
    + intros y Hy. exact Hy.
    + apply (has_shape_length _ _ _ HJ).
    + apply (has_shape_columns _ _ _ HJ).
Qed.

Lemma linearize_identity_block_witness :
  (firstn 6 (H (this (fst (Lie.linearize (Lie.s123456 [])
                             (fun _ _ => 9%float)
                             (Lie.start_sqrt_epsilon Central)))))
   = identity 6
   /\ length (H (this (fst (Lie.linearize (Lie.s123456 [])
                              (fun _ _ => 9%float)
                              (Lie.start_sqrt_epsilon Central)))))
      = 12)
  /\ df (Exact.params Central) (identity_function (length Exact.x3))
        Exact.x3 (uninitialized 3 3 (fun _ _ => Q2Qc 9))
     = Ok (identity (length Exact.x3)).
Proof.
  apply (linearize_identity_block Central [] (fun _ _ => 9%float)
           (Lie.start_sqrt_epsilon Central) (Exact.params Central)
           Exact.x3 (uninitialized 3 3 (fun _ _ => Q2Qc 9)));
    reflexivity.
Defined.

(** C1, as stated, fails.  On the state [1,2,3,4,5,6] the stored [H] has
    twelve columns and is not the identity matrix, even when the work matrix
    starts out as zero; with the step sizes 1/1000 and 1/100 its first six
    columns are not those of the identity either, because the quotients are
    rounded; and with the step 2^-200 the finite-difference Jacobian of the
    identity function at the point 1 is the zero matrix. *)
Lemma linearize_123456_not_identity :
  H (this (fst (Lie.linearize (Lie.s123456 []) (fun _ _ => 0%float)
                  (Lie.start Forward))))
  <> identity 6
  /\ firstn 6 (H (this (fst (Lie.linearize (Lie.s123456 [])
                               (fun _ _ => 0%float) (Lie.start Forward)))))
     <> identity 6
  /\ df (Lie.tiny Forward) (identity_function 1) [1%float] [[9%float]]
     <> Ok (identity 1).
Proof.
  split; [| split].
  - intros Heq. apply (f_equal (@length _)) in Heq.
    vm_compute in Heq. discriminate Heq.
  - intros Heq.
    apply (f_equal (fun M => PrimFloat.eqb (nth 0 (nth 0 M []) 0%float)
                               1%float)) in Heq.
    vm_compute in Heq. discriminate Heq.
  - intros Heq.
    apply (f_equal (fun o => match o with
                             | Ok M => PrimFloat.eqb
                                         (nth 0 (nth 0 M []) 0%float) 1%float
                             | Failed _ => false
                             end)) in Heq.
    vm_compute in Heq. discriminate Heq.
Qed.

(** C2.  For a state whose coordinate vector does not have the declared six
    coefficients, [linearize] fails with a dimension mismatch, and [H] holds
    zero: no Jacobian, partial or other, is stored. *)
Theorem linearize_dimension_mismatch
    (s : State double) (heap : nat -> nat -> double)
    (w : Env double (Params double)) :
  length (x s) <> 6 ->
  snd (Lie.linearize s heap w) = Failed DimensionMismatch
  /\ H (this (fst (Lie.linearize s heap w))) = setZero (H (this w)).
Proof.
  intros Hx. unfold Lie.linearize. rewrite updateJacobians_unfold. cbn zeta.
  rewrite NumericalDiffFacts.df_LieFunctor_mismatch by exact Hx.
  split; reflexivity.
Qed.

Lemma linearize_dimension_mismatch_witness :
  snd (Lie.linearize {| x := Lie.vector_of_Z [1; 2; 3]%Z; v := [] |}
         (fun _ _ => 9%float) (Lie.start Forward))
  = Failed DimensionMismatch
  /\ H (this (fst (Lie.linearize {| x := Lie.vector_of_Z [1; 2; 3]%Z; v := [] |}
                     (fun _ _ => 9%float) (Lie.start Forward))))
     = setZero (H (this (Lie.start Forward))).
Proof.
  apply (linearize_dimension_mismatch
           {| x := Lie.vector_of_Z [1; 2; 3]%Z; v := [] |}
           (fun _ _ => 9%float) (Lie.start Forward)).
  cbn. lia.
Defined.

(** C3.  [h] returns the coordinate vector of the state, all of its
    components, and calling it changes neither the object nor the console;
    on the coordinates [1,2,3,4,5,6] it returns [1,2,3,4,5,6]. *)
Theorem h_returns_coordinates :
  (forall (T E : Type) (m : Model T E) (s : State T),
      h m s = x s /\ h m s = firstn (length (x s)) (x s))
  /\ (forall (T : Type) (ST : Scalar T) (E : Type)
        (engine : E -> Functor T -> Vector T -> Matrix T -> result (Matrix T))
        (S_default : State T) (s : State T) (w : Env T E),
         exec engine S_default (CallH s) w = w)
  /\ (forall (md : Mode) (vel : Vector double),
         h (Lie.model md) (Lie.s123456 vel)
         = Lie.vector_of_Z [1; 2; 3; 4; 5; 6]%Z).
Proof.
  split; [| split].
  - intros T E m s. unfold h. split; [reflexivity |].
    symmetry. apply firstn_all.
  - intros. reflexivity.
  - intros. reflexivity.
Qed.

(** C4.  The constructor sets [V] to the identity matrix, and after any
    sequence of [h] and [updateJacobians] calls [V] is still that identity
    matrix. *)
Theorem noise_jacobian_constant
    (T : Type) (ST : Scalar T) (E : Type)
    (engine : E -> Functor T -> Vector T -> Matrix T -> result (Matrix T))
    (S_default : State T) (base : Model T E) (n : nat)
    (cs : list (@Call T)) (out : string) :
  has_shape n n (V base) = true ->
  V (LiePositionMeasurementModel_ctor base) = identity n
  /\ V (this (run engine S_default cs
                {| this := LiePositionMeasurementModel_ctor base;
                   cout := out |}))
     = V (LiePositionMeasurementModel_ctor base).
Proof.
  intros Hs. split.
  - unfold LiePositionMeasurementModel_ctor. cbn [V set_V].
    apply setIdentity_square, Hs.
  - rewrite run_V. reflexivity.
Qed.

Lemma noise_jacobian_constant_witness :
  V (LiePositionMeasurementModel_ctor (Lie.base Forward)) = identity 6
  /\ V (this (run df Lie.S0
                [CallUpdateJacobians (Lie.s123456 []) (fun _ _ => 9%float);
                 CallH (Lie.s123456 []);
                 CallUpdateJacobians {| x := []; v := [] |} (fun _ _ => 0%float)]
                {| this := LiePositionMeasurementModel_ctor (Lie.base Forward);
                   cout := EmptyString |}))
     = V (LiePositionMeasurementModel_ctor (Lie.base Forward)).
Proof.
  apply (noise_jacobian_constant double double_Scalar (Params double) df
           Lie.S0 (Lie.base Forward) 6
           [CallUpdateJacobians (Lie.s123456 []) (fun _ _ => 9%float);
            CallH (Lie.s123456 []);
            CallUpdateJacobians {| x := []; v := [] |} (fun _ _ => 0%float)]
           EmptyString).
  reflexivity.
Defined.

(** C5.  Two states with the same coordinates and different velocities give
    the same measurement and the same outcome of [updateJacobians], whatever
    the engine; and the functor evaluates [h] on coordinates alone: the
    velocity it hands over is zero, and [h] does not read it. *)
Theorem velocity_not_consumed
    (T : Type) (ST : Scalar T) (E : Type)
    (engine : E -> Functor T -> Vector T -> Matrix T -> result (Matrix T))
    (S_default : State T) (m : Model T E) (s1 s2 : State T)
    (heap : nat -> nat -> T) (w : Env T E) :
  x s1 = x s2 ->
  h m s1 = h m s2
  /\ updateJacobians engine S_default s1 heap w
     = updateJacobians engine S_default s2 heap w
  /\ (forall (x0 vel : Vector T),
         snd (LieFunctor_operator S_default m x0)
         = h m {| x := x0; v := vel |}).
Proof.
  intros Hx. split; [| split].
  - unfold h. exact Hx.
  - rewrite !updateJacobians_unfold. rewrite Hx. reflexivity.
  - intros x0 vel. reflexivity.
Qed.

Lemma velocity_not_consumed_witness :
  h (Lie.model Forward) (Lie.s123456 [])
  = h (Lie.model Forward) (Lie.s123456 (Lie.vector_of_Z [7; 7; 7; 7; 7; 7]%Z))
  /\ updateJacobians df Lie.S0 (Lie.s123456 []) (fun _ _ => 9%float)
       (Lie.start Forward)
     = updateJacobians df Lie.S0
         (Lie.s123456 (Lie.vector_of_Z [7; 7; 7; 7; 7; 7]%Z))
         (fun _ _ => 9%float) (Lie.start Forward)
  /\ (forall (x0 vel : Vector double),
         snd (LieFunctor_operator Lie.S0 (Lie.model Forward) x0)
         = h (Lie.model Forward) {| x := x0; v := vel |}).
Proof.
  apply (velocity_not_consumed double double_Scalar (Params double) df Lie.S0
           (Lie.model Forward) (Lie.s123456 [])
           (Lie.s123456 (Lie.vector_of_Z [7; 7; 7; 7; 7; 7]%Z))
           (fun _ _ => 9%float) (Lie.start Forward)).
  reflexivity.
Defined.

(** C6 fails on the code.  Two calls of [linearize] on the same model, with
    the same state and the same step-size parameters, store different [H]
    when the storage given to the work matrix differs: columns 6 to 11 of
    [H] are copied from coefficients that nothing has written. *)
Theorem linearize_depends_on_storage :
  H (this (fst (Lie.linearize (Lie.s123456 []) (fun _ _ => 9%float)
                  (Lie.start Forward))))
  <> H (this (fst (Lie.linearize (Lie.s123456 []) (fun _ _ => 0%float)
                     (Lie.start Forward)))).
Proof.
  intros Heq.
  apply (f_equal (fun M => PrimFloat.eqb (nth 0 (nth 6 M []) 0%float)
                             9%float)) in Heq.
  vm_compute in Heq. discriminate Heq.
Qed.

(** C7.  [updateJacobians] overwrites [H] and writes no other member: the
    object afterwards has [V], the covariance and the engine of before, and
    its [H] is the matrix that the engine returned or, when the engine
    failed, a zero in every coefficient. *)
Theorem updateJacobians_frame
    (T : Type) (ST : Scalar T) (E : Type)
    (engine : E -> Functor T -> Vector T -> Matrix T -> result (Matrix T))
    (S_default : State T) (s : State T) (heap : nat -> nat -> T)
    (w : Env T E) :
  let zeros := map (fun col => repeat zero (length col)) (H (this w)) in
  let zeroed := set_H (fun _ => zeros) (this w) in
  this (fst (updateJacobians engine S_default s heap w))
  = {| H := match engine (num_diff zeroed) (LieFunctor S_default zeroed)
                         (x s) (uninitialized 6 12 heap) with
            | Ok jac => jac
            | Failed _ => zeros
            end;
       V := V (this w);
       covariance := covariance (this w);
       num_diff := num_diff (this w) |}.
Proof.
  intros zeros zeroed.
  rewrite (updateJacobians_unfold_any engine S_default zeroed s heap w).
  change (num_diff zeroed) with (num_diff (this w)).
  destruct (engine _ _ _ _); cbn [fst this]; unfold set_H;
    cbn [H V covariance num_diff]; [reflexivity |].
  rewrite setZero_repeat. reflexivity.
Qed.

(** C8 (as amended).  For the linear function [f(x) = A x], valid step sizes
    and every evaluation point, the engine returns the matrix whose column
    [j] is the forward quotient [(f_plus - f0) / eps_j], respectively the
    central quotient [(f_plus - f_minus) / (2 eps_j)], computed in the
    arithmetic of the scalar type, binary64 included; in exact arithmetic
    that matrix is [A] itself, in both modes. *)
Theorem df_linear_quotients
    (T : Type) (ST : Scalar T) (AT : Arith T)
    (p : Params T) (r : nat) (A : Matrix T) (x0 : Vector T) (J : Matrix T)
    (pq : Params Qc) (rq : nat) (Aq : Matrix Qc) (xq : Vector Qc)
    (Jq : Matrix Qc) :
  valid p = true ->
  has_shape r (length x0) A = true ->
  has_shape r (length x0) J = true ->
  valid pq = true ->
  has_shape rq (length xq) Aq = true ->
  has_shape rq (length xq) Jq = true ->
  df p (linear r A) x0 J
  = Ok (map (fun j =>
               let eps_j := step_size p (nth j x0 zero) in
               let f0 := mat_vec r A x0 in
               let f_plus := mat_vec r A (perturb x0 j eps_j) in
               let f_minus := mat_vec r A (perturb x0 j (sopp eps_j)) in
               match mode p with
               | Forward => difference_quotient f_plus f0 eps_j
               | Central =>
                   difference_quotient f_plus f_minus (smul two eps_j)
               end)
            (seq 0 (length x0)))
  /\ df pq (linear rq Aq) xq Jq = Ok Aq.
Proof.
  intros Hp HA HJ Hpq HAq HJq. split.
  - exact (NumericalDiffFacts.df_linear p r A x0 J Hp HA HJ).
  - rewrite (NumericalDiffFacts.df_linear pq rq Aq xq Jq Hpq HAq HJq).
    f_equal.
    pose proof (has_shape_columns _ _ _ HAq) as Hcols.
    pose proof (has_shape_length _ _ _ HAq) as Hwidth.
    rewrite <- (map_nth_seq Aq []) at 2. rewrite Hwidth.
    apply map_ext_in. intros j Hj. apply in_seq in Hj.
    apply ExactFacts.finite_difference_linear; try assumption. lia.
Qed.

Lemma df_linear_quotients_witness :
  df (Lie.params Central) (linear 2 Lie.A23) Lie.x3
     (uninitialized 2 3 (fun _ _ => 9%float))
  = Ok (map (fun j =>
               let eps_j := step_size (Lie.params Central)
                              (nth j Lie.x3 zero) in
               let f0 := mat_vec 2 Lie.A23 Lie.x3 in
               let f_plus := mat_vec 2 Lie.A23 (perturb Lie.x3 j eps_j) in
               let f_minus :=
                 mat_vec 2 Lie.A23 (perturb Lie.x3 j (sopp eps_j)) in
               match mode (Lie.params Central) with
               | Forward => difference_quotient f_plus f0 eps_j
               | Central =>
                   difference_quotient f_plus f_minus (smul two eps_j)
               end)
            (seq 0 (length Lie.x3)))
  /\ df (Exact.params Forward) (linear 2 Exact.A23) Exact.x3
        (uninitialized 2 3 (fun _ _ => Q2Qc 9))
     = Ok Exact.A23.
Proof.
  apply (df_linear_quotients double double_Scalar double_Arith
           (Lie.params Central) 2 Lie.A23 Lie.x3
           (uninitialized 2 3 (fun _ _ => 9%float))
           (Exact.params Forward) 2 Exact.A23 Exact.x3
           (uninitialized 2 3 (fun _ _ => Q2Qc 9)));
    reflexivity.
Defined.

(** C8, as stated, fails on binary64.  With the valid step sizes
    [eps_base = eps_rel = 2^-200] the engine returns the zero matrix for the
    linear function [f(x) = 1 x] at the point 1, in forward and in central
    mode: the distance to [A] is 1, more than [2^100] times the step. *)
Lemma df_linear_not_within_tolerance :
  valid (Lie.tiny Forward) = true
  /\ valid (Lie.tiny Central) = true
  /\ df (Lie.tiny Forward) (linear 1 [[1%float]]) [1%float] [[9%float]]
     = Ok [[0%float]]
  /\ df (Lie.tiny Central) (linear 1 [[1%float]]) [1%float] [[9%float]]
     = Ok [[0%float]]
  /\ PrimFloat.ltb
       (PrimFloat.mul 0x1p100%float (step_size (Lie.tiny Forward) 1%float))
       (PrimFloat.abs (PrimFloat.sub 0%float 1%float))
     = true.
Proof. repeat split. Qed.

(** C9.  The evaluation operator of the functor returns the status code 0
    on every input vector, whatever its size. *)
Theorem LieFunctor_operator_status
    (T : Type) (ST : Scalar T) (E : Type) (S_default : State T)
    (m : Model T E) (x0 : Vector T) :
  fst (LieFunctor_operator S_default m x0) = 0%Z
  /\ fst (call (LieFunctor S_default m) x0) = 0%Z.
Proof. split; reflexivity. Qed.

(** C10.  [updateJacobians] runs the engine on the object whose [H] already
    holds a zero in every coefficient.  When the engine fails, the call
    fails and [H] is left like that, all zeros in the dimensions it had;
    when it succeeds, [H] holds the matrix it returned.  The [H] of before
    the call is kept in neither case. *)
Theorem updateJacobians_discards_H
    (T : Type) (ST : Scalar T) (E : Type)
    (engine : E -> Functor T -> Vector T -> Matrix T -> result (Matrix T))
    (S_default : State T) (s : State T) (heap : nat -> nat -> T)
    (w : Env T E) :
  let zeros := map (fun col => repeat zero (length col)) (H (this w)) in
  let zeroed := set_H (fun _ => zeros) (this w) in
  match engine (num_diff zeroed) (LieFunctor S_default zeroed) (x s)
               (uninitialized 6 12 heap) with
  | Ok jac =>
      snd (updateJacobians engine S_default s heap w) = Ok tt
      /\ H (this (fst (updateJacobians engine S_default s heap w))) = jac
  | Failed e =>
      snd (updateJacobians engine S_default s heap w) = Failed e
      /\ H (this (fst (updateJacobians engine S_default s heap w))) = zeros
      /\ Forall (Forall (fun a => a = zero))
           (H (this (fst (updateJacobians engine S_default s heap w))))
  end.
Proof.
  intros zeros zeroed.
  rewrite (updateJacobians_unfold_any engine S_default zeroed s heap w).
  change (num_diff zeroed) with (num_diff (this w)).
  destruct (engine _ _ _ _); cbn [fst snd this H set_H];
    [split; reflexivity |].
  rewrite setZero_repeat. fold zeros. repeat split.
  unfold zeros. apply Forall_map, Forall_forall. intros col _.
  apply Forall_forall. intros a Ha. apply repeat_spec in Ha. exact Ha.
Qed.

(** * Further properties of the model class *)

(** X1.  [updateJacobians] appends one line to the console, the rows and the
    columns that [H] had when the call began, whatever the engine does and
    whatever [H] holds afterwards. *)
Theorem updateJacobians_prints_old_shape
    (T : Type) (ST : Scalar T) (E : Type)
    (engine : E -> Functor T -> Vector T -> Matrix T -> result (Matrix T))
    (S_default : State T) (s : State T) (heap : nat -> nat -> T)
    (w : Env T E) :
  cout (fst (updateJacobians engine S_default s heap w))
  = (cout w ++ string_of_nat (rows (H (this w))) ++ ", "
       ++ string_of_nat (cols (H (this w))) ++ endl)%string.
Proof. apply updateJacobians_cout. Qed.

(** X2.  The [H], [V] and covariance that the object holds before
    [updateJacobians] have no influence on the Jacobian it stores: on two
    objects with the same engine configuration the call has the same
    outcome, and when it succeeds the same [H] is stored.  When it fails,
    each object is left with its own [H] set to zero. *)
Theorem updateJacobians_forgets_old_H
    (T : Type) (ST : Scalar T) (E : Type)
    (engine : E -> Functor T -> Vector T -> Matrix T -> result (Matrix T))
    (S_default : State T) (s : State T) (heap : nat -> nat -> T)
    (w1 w2 : Env T E) :
  num_diff (this w1) = num_diff (this w2) ->
  snd (updateJacobians engine S_default s heap w1)
  = snd (updateJacobians engine S_default s heap w2)
  /\ match snd (updateJacobians engine S_default s heap w1) with
     | Ok _ =>
         H (this (fst (updateJacobians engine S_default s heap w1)))
         = H (this (fst (updateJacobians engine S_default s heap w2)))
     | Failed _ =>
         H (this (fst (updateJacobians engine S_default s heap w1)))
         = setZero (H (this w1))
         /\ H (this (fst (updateJacobians engine S_default s heap w2)))
            = setZero (H (this w2))
     end.
Proof.
  intros Hd. rewrite !updateJacobians_unfold. cbn zeta.
  change (num_diff (set_H setZero (this w1))) with (num_diff (this w1)).
  change (num_diff (set_H setZero (this w2))) with (num_diff (this w2)).
  change (LieFunctor S_default (set_H setZero (this w1)))
    with (LieFunctor S_default (set_H setZero (this w2))).
  rewrite Hd.
  destruct (engine _ _ _ _); repeat split.
Qed.

Lemma updateJacobians_forgets_old_H_witness :
  snd (updateJacobians df Lie.S0 (Lie.s123456 []) (fun _ _ => 9%float)
         (Lie.start Forward))
  = snd (updateJacobians df Lie.S0 (Lie.s123456 []) (fun _ _ => 9%float)
           {| this := Lie.base Forward; cout := "log"%string |})
  /\ match snd (updateJacobians df Lie.S0 (Lie.s123456 [])
                  (fun _ _ => 9%float) (Lie.start Forward)) with
     | Ok _ =>
         H (this (fst (updateJacobians df Lie.S0 (Lie.s123456 [])
                         (fun _ _ => 9%float) (Lie.start Forward))))
         = H (this (fst (updateJacobians df Lie.S0 (Lie.s123456 [])
                           (fun _ _ => 9%float)
                           {| this := Lie.base Forward;
                              cout := "log"%string |})))
     | Failed _ =>
         H (this (fst (updateJacobians df Lie.S0 (Lie.s123456 [])
                         (fun _ _ => 9%float) (Lie.start Forward))))
         = setZero (H (this (Lie.start Forward)))
         /\ H (this (fst (updateJacobians df Lie.S0 (Lie.s123456 [])
                            (fun _ _ => 9%float)
                            {| this := Lie.base Forward;
                               cout := "log"%string |})))
            = setZero (H (this {| this := Lie.base Forward;
                                  cout := "log"%string |}))
     end.
Proof.
  apply (updateJacobians_forgets_old_H double double_Scalar (Params double) df Lie.S0
           (Lie.s123456 []) (fun _ _ => 9%float) (Lie.start Forward)
           {| this := Lie.base Forward; cout := "log"%string |}).
  reflexivity.
Defined.

(** X3.  Calling [updateJacobians] a second time with the same state, on
    storage with the same content, has the outcome of the first call and
    leaves the object as the first call left it. *)
Theorem updateJacobians_twice
    (T : Type) (ST : Scalar T) (E : Type)
    (engine : E -> Functor T -> Vector T -> Matrix T -> result (Matrix T))
    (S_default : State T) (s : State T) (heap : nat -> nat -> T)
    (w : Env T E) :
  this (fst (updateJacobians engine S_default s heap
               (fst (updateJacobians engine S_default s heap w))))
  = this (fst (updateJacobians engine S_default s heap w))
  /\ snd (updateJacobians engine S_default s heap
            (fst (updateJacobians engine S_default s heap w)))
     = snd (updateJacobians engine S_default s heap w).
Proof.
  rewrite (updateJacobians_unfold_any engine S_default (this w) s heap
             (fst (updateJacobians engine S_default s heap w))).
  rewrite (updateJacobians_unfold_any engine S_default (this w) s heap w).
  destruct (engine (num_diff (this w)) (LieFunctor S_default (this w)) (x s)
              (uninitialized 6 12 heap)) as [jac | e] eqn:Hout;
    cbn [fst snd this num_diff set_H]; rewrite Hout;
    cbn [fst snd this]; unfold set_H; cbn [H V covariance num_diff];
    rewrite ?setZero_setZero; split; reflexivity.
Qed.

(** X4.  The functor returns its argument with status 0, whatever object it
    points to and whatever a default-constructed state contains: the
    coordinates of its temporary state are overwritten, its velocity is set
    to zero, and [h] reads the coordinates only.  Its value has the declared
    output size exactly when its argument has the declared input size. *)
Theorem LieFunctor_is_identity
    (T : Type) (ST : Scalar T) (E : Type) (S1 S2 : State T)
    (m1 m2 : Model T E) (x0 : Vector T) :
  call (LieFunctor S1 m1) x0 = (0%Z, x0)
  /\ call (LieFunctor S1 m1) x0 = call (LieFunctor S2 m2) x0
  /\ (Z.of_nat (length (snd (call (LieFunctor S1 m1) x0)))
      =? values (LieFunctor S1 m1))%Z
     = (Z.of_nat (length x0) =? inputs (LieFunctor S1 m1))%Z.
Proof. repeat split. Qed.

(** X5.  After any sequence of [h] and [updateJacobians] calls, failed ones
    included, the object is the object of the start with another [H]: [V],
    the covariance and the engine configuration are never written. *)
Theorem run_changes_only_H
    (T : Type) (ST : Scalar T) (E : Type)
    (engine : E -> Functor T -> Vector T -> Matrix T -> result (Matrix T))
    (S_default : State T) (cs : list (@Call T)) (w : Env T E) :
  this (run engine S_default cs w)
  = set_H (fun _ => H (this (run engine S_default cs w))) (this w).
Proof.
  revert w. induction cs as [| c cs IH]; intros w.
  - symmetry. apply set_H_const_id.
  - cbn [run fold_left]. fold (run engine S_default cs (exec engine S_default c w)).
    rewrite IH at 1. rewrite (exec_frame engine S_default c w) at 1.
    reflexivity.
Qed.

(** X6.  Over any sequence of calls the console grows by exactly one line
    for each call of [updateJacobians]; [h] prints nothing. *)
Theorem one_line_per_updateJacobians
    (T : Type) (ST : Scalar T) (E : Type)
    (engine : E -> Functor T -> Vector T -> Matrix T -> result (Matrix T))
    (S_default : State T) (cs : list (@Call T)) (w : Env T E) :
  lines (cout (run engine S_default cs w))
  = (lines (cout w) + count_updates cs)%nat.
Proof.
  revert w. induction cs as [| c cs IH]; intros w.
  - cbn. lia.
  - cbn [run fold_left]. fold (run engine S_default cs (exec engine S_default c w)).
    rewrite IH. unfold count_updates. destruct c as [s | s heap];
      cbn [exec filter length].
    + reflexivity.
    + rewrite updateJacobians_cout, lines_app, lines_report. lia.
Qed.

(** X7.  The constructor writes [V] and nothing else, and keeps the
    dimensions of [V]: column [j] of the new [V] holds one in row [j] and
    zero in the other rows, also when [V] is not square. *)
Theorem constructor_writes_only_V
    (T : Type) (ST : Scalar T) (E : Type) (base : Model T E) (r c : nat) :
  has_shape r c (V base) = true ->
  H (LiePositionMeasurementModel_ctor base) = H base
  /\ covariance (LiePositionMeasurementModel_ctor base) = covariance base
  /\ num_diff (LiePositionMeasurementModel_ctor base) = num_diff base
  /\ V (LiePositionMeasurementModel_ctor base) = map (basis r) (seq 0 c)
  /\ has_shape r c (V (LiePositionMeasurementModel_ctor base)) = true.
Proof.
  intros Hs.
  assert (HV : V (LiePositionMeasurementModel_ctor base)
               = map (basis r) (seq 0 c)).
  { unfold LiePositionMeasurementModel_ctor. cbn [V set_V].
    unfold setIdentity.
    rewrite (setIdentity_from (has_shape_columns _ _ _ Hs)).
    rewrite (has_shape_length _ _ _ Hs). reflexivity. }
  repeat split; try exact HV.
  rewrite HV. unfold has_shape.
  rewrite length_map, length_seq, Nat.eqb_refl. cbn [andb].
  apply forallb_forall. intros col Hin.
  apply in_map_iff in Hin. destruct Hin as [j [<- _]].
  unfold basis. rewrite length_map, length_seq. apply Nat.eqb_refl.
Qed.

Lemma constructor_writes_only_V_witness :
  H (LiePositionMeasurementModel_ctor
       {| H := uninitialized 6 12 (fun _ _ => 7%float);
          V := uninitialized 2 3 (fun _ _ => 7%float);
          covariance := identity 2;
          num_diff := Lie.params Forward |})
  = H {| H := uninitialized 6 12 (fun _ _ => 7%float);
         V := uninitialized 2 3 (fun _ _ => 7%float);
         covariance := identity 2;
         num_diff := Lie.params Forward |}
  /\ covariance (LiePositionMeasurementModel_ctor
                   {| H := uninitialized 6 12 (fun _ _ => 7%float);
                      V := uninitialized 2 3 (fun _ _ => 7%float);
                      covariance := identity 2;
                      num_diff := Lie.params Forward |})
     = covariance {| H := uninitialized 6 12 (fun _ _ => 7%float);
                     V := uninitialized 2 3 (fun _ _ => 7%float);
                     covariance := identity 2;
                     num_diff := Lie.params Forward |}
  /\ num_diff (LiePositionMeasurementModel_ctor
                 {| H := uninitialized 6 12 (fun _ _ => 7%float);
                    V := uninitialized 2 3 (fun _ _ => 7%float);
                    covariance := identity 2;
                    num_diff := Lie.params Forward |})
     = num_diff {| H := uninitialized 6 12 (fun _ _ => 7%float);
                   V := uninitialized 2 3 (fun _ _ => 7%float);
                   covariance := identity 2;
                   num_diff := Lie.params Forward |}
  /\ V (LiePositionMeasurementModel_ctor
          {| H := uninitialized 6 12 (fun _ _ => 7%float);
             V := uninitialized 2 3 (fun _ _ => 7%float);
             covariance := identity 2;
             num_diff := Lie.params Forward |})
     = map (basis 2) (seq 0 3)
  /\ has_shape 2 3
       (V (LiePositionMeasurementModel_ctor
             {| H := uninitialized 6 12 (fun _ _ => 7%float);
                V := uninitialized 2 3 (fun _ _ => 7%float);
                covariance := identity 2;
                num_diff := Lie.params Forward |}))
     = true.
Proof.
  apply (constructor_writes_only_V double double_Scalar (Params double)
           {| H := uninitialized 6 12 (fun _ _ => 7%float);
              V := uninitialized 2 3 (fun _ _ => 7%float);
              covariance := identity 2;
              num_diff := Lie.params Forward |} 2 3).
  reflexivity.
Defined.

